(** * Maximum matching (Koala / NetworKit): a shallow embedding of the
    blossom-based weighted matching driver.

    The repository ships only [include/matching/MaximumMatching.hpp]; the
    bodies of the member functions live in an implementation file that is
    not covered here.  The data model below follows the header
    (field and member names are kept); the bodies are modelled from the
    specification of the repository, and every such definition says so
    in its doc comment.

    Representation choices:
    - nodes and edge ids are [nat]; edge weights and dual variables are
      [Z] (the specification requires integral weights and duals);
    - [Blossom*] is an index into an arena [arena : list Blossom];
    - [std::vector] members are lists, updated with stdpp's [<[i:=x]>];
    - the sentinel [no_edge] is [None : option EdgeInfo]. *)

From stdpp Require Import base list.
From Stdlib Require Import ZArith QArith.

Open Scope Z_scope.

Abbreviation node := nat (only parsing).
Abbreviation edgeid := nat (only parsing).
Abbreviation edgeweight := Z (only parsing).

(** [struct EdgeInfo { node u, v; edgeid id; }] *)
Record EdgeInfo := mkEdgeInfo { edge_u : node; edge_v : node; edge_id : edgeid }.

(** [static constexpr EdgeInfo no_edge] *)
Definition no_edge : option EdgeInfo := None.

(** [enum BlossomLabel { odd, even, free }] *)
Inductive BlossomLabel := odd | even | free.

Definition BlossomLabel_eqb (a b : BlossomLabel) : bool :=
  match a, b with
  | odd, odd | even, even | free, free => true
  | _, _ => false
  end.

(** [class Blossom]: the fields the driver reads and writes
    ([data] is the variant payload, unused by the Edmonds variant). *)
Record Blossom := mkBlossom {
  parent : option nat;
  initial_base : node;
  base : node;
  sub_blossoms : list (nat * EdgeInfo);
  label : BlossomLabel;
  backtrack_edge : option EdgeInfo;
  visited : bool;
  z : edgeweight
}.

Definition set_parent (p : option nat) (b : Blossom) : Blossom :=
  mkBlossom p (initial_base b) (base b) (sub_blossoms b) (label b)
    (backtrack_edge b) (visited b) (z b).
Definition set_base (x : node) (b : Blossom) : Blossom :=
  mkBlossom (parent b) (initial_base b) x (sub_blossoms b) (label b)
    (backtrack_edge b) (visited b) (z b).
Definition set_sub_blossoms (l : list (nat * EdgeInfo)) (b : Blossom) : Blossom :=
  mkBlossom (parent b) (initial_base b) (base b) l (label b)
    (backtrack_edge b) (visited b) (z b).
Definition set_label (lab : BlossomLabel) (b : Blossom) : Blossom :=
  mkBlossom (parent b) (initial_base b) (base b) (sub_blossoms b) lab
    (backtrack_edge b) (visited b) (z b).
Definition set_backtrack_edge (e : option EdgeInfo) (b : Blossom) : Blossom :=
  mkBlossom (parent b) (initial_base b) (base b) (sub_blossoms b) (label b)
    e (visited b) (z b).
Definition set_z (x : edgeweight) (b : Blossom) : Blossom :=
  mkBlossom (parent b) (initial_base b) (base b) (sub_blossoms b) (label b)
    (backtrack_edge b) (visited b) x.

(** [bool Blossom::is_trivial()]: a blossom without children. *)
Definition is_trivial (b : Blossom) : bool :=
  match sub_blossoms b with [] => true | _ => false end.

(** The state of [EdmondsMaximumMatching]: the members of
    [BlossomMaximumMatching] and those of the Edmonds variant
    ([U], [useful_edges]).  [arena] holds every blossom ever allocated;
    [blossoms] is the [std::set<Blossom*>] of current (root) blossoms. *)
Record State := mkState {
  graph_edges : list (node * node * edgeweight);
  is_in_matching : list bool;
  arena : list Blossom;
  blossoms : list nat;
  matched_vertex : list (option node);
  trivial_blossom : list nat;
  U : list edgeweight;
  useful_edges : list EdgeInfo
}.

Definition set_is_in_matching (m : list bool) (s : State) : State :=
  mkState (graph_edges s) m (arena s) (blossoms s) (matched_vertex s)
    (trivial_blossom s) (U s) (useful_edges s).
Definition set_arena (a : list Blossom) (s : State) : State :=
  mkState (graph_edges s) (is_in_matching s) a (blossoms s) (matched_vertex s)
    (trivial_blossom s) (U s) (useful_edges s).
Definition set_blossoms (bs : list nat) (s : State) : State :=
  mkState (graph_edges s) (is_in_matching s) (arena s) bs (matched_vertex s)
    (trivial_blossom s) (U s) (useful_edges s).
Definition set_matched_vertex (mv : list (option node)) (s : State) : State :=
  mkState (graph_edges s) (is_in_matching s) (arena s) (blossoms s) mv
    (trivial_blossom s) (U s) (useful_edges s).
Definition set_U (u : list edgeweight) (s : State) : State :=
  mkState (graph_edges s) (is_in_matching s) (arena s) (blossoms s)
    (matched_vertex s) (trivial_blossom s) u (useful_edges s).
Definition set_useful_edges (q : list EdgeInfo) (s : State) : State :=
  mkState (graph_edges s) (is_in_matching s) (arena s) (blossoms s)
    (matched_vertex s) (trivial_blossom s) (U s) q.

(** A blossom that is not allocated reads as this default; the code
    never dereferences such a pointer in a consistent state. *)
Definition dummy_blossom : Blossom :=
  mkBlossom None 0%nat 0%nat [] free None false 0.

Definition blossom_at (s : State) (b : nat) : Blossom :=
  default dummy_blossom (arena s !! b).

Definition update_blossom (f : Blossom -> Blossom) (b : nat) (s : State) : State :=
  set_arena (alter f b (arena s)) s.

(** Follow [parent] pointers up to the root (the loop of
    [Blossom*]-chasing, bounded by the number of allocated blossoms). *)
Fixpoint root_from (ar : list Blossom) (fuel : nat) (b : nat) : nat :=
  match fuel with
  | O => b
  | S f =>
      match ar !! b with
      | Some bl => match parent bl with Some p => root_from ar f p | None => b end
      | None => b
      end
  end.

(** Modelled from the spec: [EdmondsMaximumMatching::get_blossom] (body
    absent): "root_blossom(v)", the current blossom containing [v]. *)
Definition get_blossom (s : State) (vertex : node) : nat :=
  root_from (arena s) (length (arena s)) (default 0%nat (trivial_blossom s !! vertex)).

(** [Blossom::for_nodes]: the nodes of a blossom, base-side child first. *)
Fixpoint nodes_from (ar : list Blossom) (fuel : nat) (b : nat) : list node :=
  match fuel with
  | O => []
  | S f =>
      match ar !! b with
      | None => []
      | Some bl =>
          match sub_blossoms bl with
          | [] => [base bl]
          | subs => flat_map (fun '(c, _) => nodes_from ar f c) subs
          end
      end
  end.

Definition for_nodes (s : State) (b : nat) : list node :=
  nodes_from (arena s) (S (length (arena s))) b.

(** The label of the root blossom of a node. *)
Definition node_label (s : State) (vertex : node) : BlossomLabel :=
  label (blossom_at s (get_blossom s vertex)).

(** Modelled from the spec: [EdmondsMaximumMatching::adjust_by_delta]
    (body absent).  Section 4.D: "for every even node u_v <- u_v - delta;
    odd node u_v <- u_v + delta; even blossom z_B <- z_B + 2 delta; odd
    blossom z_B <- z_B - 2 delta; free unchanged."  Node labels are those
    of their root blossom; blossom duals are adjusted for the current
    blossoms (the set [blossoms]). *)
Definition adjust_U (lab : BlossomLabel) (delta x : edgeweight) : edgeweight :=
  match lab with
  | even => x - delta
  | odd => x + delta
  | free => x
  end.

Definition adjust_z (lab : BlossomLabel) (delta x : edgeweight) : edgeweight :=
  match lab with
  | even => x + 2 * delta
  | odd => x - 2 * delta
  | free => x
  end.

Definition adjust_by_delta (delta : edgeweight) (s : State) : State :=
  let u' := imap (fun vertex x => adjust_U (node_label s vertex) delta x) (U s) in
  let a' := imap (fun i bl =>
                    if bool_decide (i ∈ blossoms s)
                    then set_z (adjust_z (label bl) delta (z bl)) bl
                    else bl) (arena s) in
  set_arena a' (set_U u' s).

(** [static EdgeInfo reverse(const EdgeInfo&)] *)
Definition reverse (e : EdgeInfo) : EdgeInfo :=
  mkEdgeInfo (edge_v e) (edge_u e) (edge_id e).

(** The edges of [graph_edges] at a node, oriented away from it, in
    edge-id order. *)
Definition edges_at (s : State) (x : node) : list EdgeInfo :=
  flat_map (fun '(i, (a, b, _)) =>
              (if bool_decide (a = x) then [mkEdgeInfo x b i] else []) ++
              (if bool_decide (b = x /\ a <> x) then [mkEdgeInfo x a i] else []))
    (imap pair (graph_edges s)).

(** The blossoms containing a node: its trivial blossom and its ancestors. *)
Fixpoint ancestors_from (ar : list Blossom) (fuel : nat) (b : nat) : list nat :=
  match fuel with
  | O => [b]
  | S f =>
      b :: match ar !! b with
           | Some bl => match parent bl with Some p => ancestors_from ar f p | None => [] end
           | None => []
           end
  end.

Definition ancestors (s : State) (x : node) : list nat :=
  ancestors_from (arena s) (length (arena s)) (default 0%nat (trivial_blossom s !! x)).

(** Modelled from the spec: [EdmondsMaximumMatching::edge_dual_variable]
    (body absent), the slack of Section 3, invariant 4:
    [u_i + u_j + sum_{B ⊇ {i,j}} z_B - w_ij]. *)
Definition edge_slack (s : State) (id : edgeid) : edgeweight :=
  match graph_edges s !! id with
  | Some (a, b, w) =>
      let common := filter (fun B => B ∈ ancestors s b) (ancestors s a) in
      default 0 (U s !! a) + default 0 (U s !! b)
      + foldr (fun B acc => z (blossom_at s B) + acc) 0 common - w
  | None => 0
  end.

(** Modelled from the spec: [swap_edge_in_matching] (body absent): flip
    the matched status of an edge, keeping [matched_vertex] in step. *)
Definition swap_edge_in_matching (id : edgeid) (s : State) : State :=
  match graph_edges s !! id, is_in_matching s !! id with
  | Some (a, b, _), Some true =>
      let mv := matched_vertex s in
      let clear x y mv := if bool_decide (mv !! x = Some (Some y)) then <[x := None]> mv else mv in
      set_matched_vertex (clear b a (clear a b mv))
        (set_is_in_matching (<[id := false]> (is_in_matching s)) s)
  | Some (a, b, _), Some false =>
      set_matched_vertex (<[b := Some a]> (<[a := Some b]> (matched_vertex s)))
        (set_is_in_matching (<[id := true]> (is_in_matching s)) s)
  | _, _ => s
  end.

(** The matched edge at a node, oriented away from it (if any). *)
Definition matched_edge (s : State) (x : node) : option EdgeInfo :=
  head (filter (fun e => is_in_matching s !! edge_id e = Some true) (edges_at s x)).

(** Modelled from the spec: [EdmondsMaximumMatching::label_odd] and
    [label_even] (bodies absent).  An odd blossom only changes label; an
    even one also pushes its tight edges on the useful-edge queue
    (Section 4.E: the Edmonds variant enqueues tight edges with an even
    endpoint). *)
Definition label_odd (b : nat) (s : State) : State :=
  update_blossom (set_label odd) b s.

Definition push_tight_edges (b : nat) (s : State) : State :=
  let es := flat_map (edges_at s) (for_nodes s b) in
  set_useful_edges
    (useful_edges s ++ filter (fun e => bool_decide (edge_slack s (edge_id e) = 0)) es) s.

Definition label_even (b : nat) (s : State) : State :=
  push_tight_edges b (update_blossom (set_label even) b s).

(** The even-or-free case of [consider_edge]: the free root blossom [b]
    is reached by [edge] from an even one; it is labelled odd with
    [backtrack_edge = edge], and the blossom of its base's mate is
    labelled even with the matched edge as its [backtrack_edge]. *)
Definition label_free_blossom (edge : EdgeInfo) (b : nat) (s : State) : State :=
  let s1 := label_odd b (update_blossom (set_backtrack_edge (Some edge)) b s) in
  match matched_edge s (base (blossom_at s b)) with
  | Some me =>
      let bm := get_blossom s (edge_v me) in
      label_even bm (update_blossom (set_backtrack_edge (Some me)) bm s1)
  | None => s1
  end.

(** The chain of root blossoms from [b] to the root of its alternating
    tree, following [backtrack_edge] (one [backtrack_step] per element). *)
Fixpoint backtrack_path_from (s : State) (fuel : nat) (b : nat) : list nat :=
  match fuel with
  | O => [b]
  | S f =>
      b :: match backtrack_edge (blossom_at s b) with
           | Some e => backtrack_path_from s f (get_blossom s (edge_u e))
           | None => []
           end
  end.

Definition backtrack_path (s : State) (b : nat) : list nat :=
  backtrack_path_from s (length (arena s)) b.

(** [cut_path_at]: the part of a backtrack path strictly below [cut]. *)
Fixpoint cut_path_at (path : list nat) (cut : nat) : list nat :=
  match path with
  | [] => []
  | b :: rest => if bool_decide (b = cut) then [] else b :: cut_path_at rest cut
  end.

(** Modelled from the spec: [EdmondsMaximumMatching::handle_new_blossom]
    (body absent): the nodes of the formerly odd children are even now,
    so their tight edges become useful. *)
Definition handle_new_blossom (children : list nat) (s : State) : State :=
  foldl (fun s c => if BlossomLabel_eqb (label (blossom_at s c)) odd
                    then push_tight_edges c s else s) s children.

(** Modelled from the spec: [create_new_blossom] (body absent), Section
    4.D "Blossom creation".  The cycle of the new blossom starts at [lca]
    (whose base it inherits), runs down the [u] half-path to [B_u],
    crosses [edge] and climbs the [v] half-path back to [lca]; each child
    is paired with the edge to its successor.  The new blossom is even,
    has [z = 0], keeps [lca]'s [backtrack_edge]; children keep their
    labels and backtrack edges and get the new blossom as parent. *)
Definition create_new_blossom (edge : EdgeInfo) (u_cut v_cut : list nat) (lca : nat)
    (s : State) : State :=
  let nb := length (arena s) in
  let bt x := default edge (backtrack_edge (blossom_at s x)) in
  let pairs_u := zip (lca :: rev u_cut) (map bt (rev u_cut) ++ [edge]) in
  let pairs_v := map (fun x => (x, reverse (bt x))) v_cut in
  let subs := pairs_u ++ pairs_v in
  let lb := blossom_at s lca in
  let nbl := mkBlossom None (base lb) (base lb) subs even (backtrack_edge lb) false 0 in
  let children := map fst subs in
  let ar := foldr (fun c ar => alter (set_parent (Some nb)) c ar) (arena s) children in
  let s1 := set_blossoms (nb :: filter (fun x => x ∉ children) (blossoms s))
              (set_arena (ar ++ [nbl]) s) in
  handle_new_blossom children s1.

(** The position in [subs] of the child containing [x]. *)
Definition child_index (s : State) (subs : list (nat * EdgeInfo)) (x : node) : nat :=
  default 0%nat (fst <$> list_find (fun p => x ∈ for_nodes s p.1) subs).

Definition child_of (s : State) (subs : list (nat * EdgeInfo)) (x : node) : nat :=
  default 0%nat (fst <$> subs !! child_index s subs x).

(** Modelled from the spec: [lazy_augment_path_in_blossom] and
    [swap_edges_on_even_path] (bodies absent), Section 4.D
    "Augmentation": rewrite the matching inside [b] so that its base
    becomes [entry].  With children [c_0 .. c_(k-1)] ([c_0] holding the
    base) and [entry] in [c_i], the even-length way round the cycle from
    [c_0] to [c_i] is walked (forwards when [i] is even, backwards when
    it is odd) and its edges are swapped; every child on it is
    re-based at the endpoint of its new matched edge, [c_i] at [entry],
    and the cycle is rotated to start at [c_i]. *)
Fixpoint lazy_augment_path_in_blossom (fuel : nat) (b : nat) (entry : node)
    (s : State) : State :=
  match fuel with
  | O => s
  | S f =>
      match sub_blossoms (blossom_at s b) with
      | [] => s
      | subs =>
          let i := child_index s subs entry in
          let es := map snd subs in
          let path := if Nat.even i then take i es else rev (drop i es) in
          let s1 := foldl (fun s e => swap_edge_in_matching (edge_id e) s) s path in
          let newly := filter (fun e => is_in_matching s1 !! edge_id e = Some true) path in
          let s2 := foldl (fun s e =>
                      lazy_augment_path_in_blossom f (child_of s subs (edge_v e)) (edge_v e)
                        (lazy_augment_path_in_blossom f (child_of s subs (edge_u e)) (edge_u e) s))
                      s1 newly in
          let s3 := lazy_augment_path_in_blossom f (child_of s2 subs entry) entry s2 in
          update_blossom (fun bl => set_base entry (set_sub_blossoms (drop i subs ++ take i subs) bl))
            b s3
      end
  end.

(** One half of [augment_path]: from the blossom entered at [entry] up to
    the exposed root of its tree.  The path alternates even and odd
    blossoms.  An even blossom is re-based at the node where the path
    enters it and its [backtrack_edge] (the matched edge to its odd
    parent) is swapped out.  The odd parent is re-based at the endpoint
    of its own [backtrack_edge] (the edge by which it was labelled,
    which becomes matched); that edge is swapped in, and the walk goes
    on with the even blossom at its other end. *)
Fixpoint augment_half (fuel : nat) (path : list nat) (entry : node) (s : State) : State :=
  match path with
  | [] => s
  | b :: rest =>
      let s1 := lazy_augment_path_in_blossom fuel b entry s in
      match backtrack_edge (blossom_at s b) with
      | None => s1
      | Some e =>
          let s2 := swap_edge_in_matching (edge_id e) s1 in
          match rest with
          | [] => s2
          | p :: rest' =>
              match backtrack_edge (blossom_at s p) with
              | None => s2
              | Some e' =>
                  let s3 := lazy_augment_path_in_blossom fuel p (edge_v e') s2 in
                  augment_half fuel rest' (edge_u e') (swap_edge_in_matching (edge_id e') s3)
              end
          end
      end
  end.

(** Modelled from the spec: [augment_path] (body absent): both half-paths
    are augmented, then the edge that closed the path is swapped. *)
Definition augment_path (edge : EdgeInfo) (u_path v_path : list nat) (s : State) : State :=
  let fuel := S (length (arena s)) in
  swap_edge_in_matching (edge_id edge)
    (augment_half fuel v_path (edge_v edge) (augment_half fuel u_path (edge_u edge) s)).

(** Modelled from the spec: [backtrack] (body absent), Section 4.D
    "Backtracking": the two half-paths are followed to the roots of
    their trees; different roots mean an augmenting path, a common
    blossom (the first one of the [u] path met on the [v] path) is the
    base of a new blossom.  Returns whether it augmented. *)
Definition backtrack (u v : nat) (edge : EdgeInfo) (s : State) : bool * State :=
  let u_path := backtrack_path s u in
  let v_path := backtrack_path s v in
  if bool_decide (last u_path = last v_path) then
    let lca := default u (head (filter (fun x => x ∈ v_path) u_path)) in
    (false, create_new_blossom edge (cut_path_at u_path lca) (cut_path_at v_path lca) lca s)
  else (true, augment_path edge u_path v_path s).

(** Modelled from the spec: [BlossomMaximumMatching::consider_edge] (body
    absent), Section 4.D "Substage":
    - same root blossom, or both free: ignore;
    - one even, the other free: label the free one odd, its mate's even;
    - both even: backtrack (augment or new blossom);
    returns [true] iff an augmentation happened. *)
Definition consider_edge (edge : EdgeInfo) (s : State) : bool * State :=
  let bu := get_blossom s (edge_u edge) in
  let bv := get_blossom s (edge_v edge) in
  if bool_decide (bu = bv) then (false, s) else
  match label (blossom_at s bu), label (blossom_at s bv) with
  | free, free => (false, s)
  | even, free => (false, label_free_blossom edge bv s)
  | free, even => (false, label_free_blossom (reverse edge) bu s)
  | even, even => backtrack bu bv edge s
  | _, _ => (false, s)
  end.

(** The matching part of the state: [is_in_matching] and [matched_vertex]. *)
Definition same_matching (s s' : State) : Prop :=
  is_in_matching s' = is_in_matching s /\ matched_vertex s' = matched_vertex s.

(** A concrete state: the path 0 - 1 - 2 with the closing edge 0 - 2
    (edge ids 0, 1, 2, weight 2 each, internally doubled), matching
    [{1 - 2}], node 0 exposed and even, the others free, all node duals
    1, so every edge is tight. *)
Definition trivial_blossom_of (x : node) (lab : BlossomLabel) : Blossom :=
  mkBlossom None x x [] lab None false 0.

Definition example_state : State :=
  mkState [(0%nat, 1%nat, 2); (1%nat, 2%nat, 2); (0%nat, 2%nat, 2)]
    [false; true; false]
    [trivial_blossom_of 0 even; trivial_blossom_of 1 free; trivial_blossom_of 2 free]
    [0%nat; 1%nat; 2%nat]
    [None; Some 2%nat; Some 1%nat]
    [0%nat; 1%nat; 2%nat]
    [1; 1; 1]
    [].

(** [example_state] with a fourth, exposed and even node 3 joined to
    node 2 by edge 3. *)
Definition example_state_tail : State :=
  mkState [(0%nat, 1%nat, 2); (1%nat, 2%nat, 2); (0%nat, 2%nat, 2); (2%nat, 3%nat, 2)]
    [false; true; false; false]
    [trivial_blossom_of 0 even; trivial_blossom_of 1 free; trivial_blossom_of 2 free;
     trivial_blossom_of 3 even]
    [0%nat; 1%nat; 2%nat; 3%nat]
    [None; Some 2%nat; Some 1%nat; None]
    [0%nat; 1%nat; 2%nat; 3%nat]
    [1; 1; 1; 1]
    [].

(** The direction in which [adjust_by_delta] moves the duals of a label:
    a node dual moves by [- label_sign * delta], a blossom dual by
    [+ 2 * label_sign * delta]. *)
Definition label_sign (lab : BlossomLabel) : Z :=
  match lab with even => 1 | odd => -1 | free => 0 end.

(** The blossoms containing both endpoints of an edge (the ones whose
    duals enter [edge_slack]). *)
Definition common_blossoms (s : State) (a b : node) : list nat :=
  filter (fun B => B ∈ ancestors s b) (ancestors s a).

(** The sum, over the blossoms of [l] that are current, of their label
    signs. *)
Definition current_sign_sum (s : State) (l : list nat) : Z :=
  foldr (fun B acc => (if bool_decide (B ∈ blossoms s)
                       then label_sign (label (blossom_at s B)) else 0) + acc) 0 l.

(** [s'] keeps the graph, the node duals and the dual of every blossom
    of [s]; the blossoms it adds have dual 0. *)
Definition duals_kept (s s' : State) : Prop :=
  graph_edges s' = graph_edges s /\ U s' = U s /\
  (length (arena s) <= length (arena s'))%nat /\
  (forall b, (b < length (arena s))%nat -> z <$> arena s' !! b = z <$> arena s !! b) /\
  (forall b bl, (length (arena s) <= b)%nat -> arena s' !! b = Some bl -> z bl = 0).

(** [matched_vertex] is symmetric: [a] is the mate of [b] whenever [b] is
    the mate of [a]. *)
Definition mate_symmetric (mv : list (option node)) : Prop :=
  forall a b : node, mv !! a = Some (Some b) -> mv !! b = Some (Some a).

(** A boolean check of [mate_symmetric], for concrete states. *)
Definition mate_symmetric_check (mv : list (option node)) : bool :=
  forallb (fun '(a, o) => match o with
                          | None => true
                          | Some b => bool_decide (mv !! b = Some (Some a))
                          end) (imap pair mv).

(** A state with a compound free blossom: nodes 0 .. 5, edges
    [e0 = 1-2], [e1 = 2-3], [e2 = 1-3] (the odd cycle of blossom 6, base
    1), [e3 = 1-4], [e4 = 0-2], [e5 = 4-5], all of weight 2; matching
    [{2-3, 1-4}]; nodes 0 and 5 exposed and even, blossom 6 and node 4
    free; all node duals 1. *)
Definition example_state_blossom : State :=
  mkState
    [(1%nat, 2%nat, 2); (2%nat, 3%nat, 2); (1%nat, 3%nat, 2);
     (1%nat, 4%nat, 2); (0%nat, 2%nat, 2); (4%nat, 5%nat, 2)]
    [false; true; false; true; false; false]
    [trivial_blossom_of 0 even;
     set_parent (Some 6%nat) (trivial_blossom_of 1 free);
     set_parent (Some 6%nat) (trivial_blossom_of 2 free);
     set_parent (Some 6%nat) (trivial_blossom_of 3 free);
     trivial_blossom_of 4 free;
     trivial_blossom_of 5 even;
     mkBlossom None 1%nat 1%nat
       [(1%nat, mkEdgeInfo 1 2 0); (2%nat, mkEdgeInfo 2 3 1); (3%nat, mkEdgeInfo 3 1 2)]
       free None false 0]
    [0%nat; 4%nat; 5%nat; 6%nat]
    [None; Some 4%nat; Some 3%nat; Some 2%nat; Some 1%nat; None]
    [0%nat; 1%nat; 2%nat; 3%nat; 4%nat; 5%nat]
    [1; 1; 1; 1; 1; 1]
    [].

(** Everything a blossom holds except its dual [z]: its place in the
    forest, its cycle, its label and its backtrack edge. *)
Definition forest_part (bl : Blossom)
    : option nat * node * node * list (nat * EdgeInfo) * BlossomLabel * option EdgeInfo * bool :=
  (parent bl, initial_base bl, base bl, sub_blossoms bl, label bl, backtrack_edge bl, visited bl).

(** ** Construction of a matcher *)
Module Construction.

(** The algorithms of the header: three weighted ones
    ([EdmondsMaximumMatching], [GabowMaximumMatching],
    [MicaliGabowMaximumMatching]) and a cardinality one
    ([MicaliVaziraniMatching]). *)
Inductive Variant := Edmonds | Gabow | MicaliGabow | MicaliVazirani.

Definition weighted (var : Variant) : bool :=
  match var with MicaliVazirani => false | _ => true end.

(** Section 7 of the specification. *)
Inductive MatchingError := InvalidGraph | Overflow.

(** An input edge [(u, v, w)]; [NetworKit::edgeweight] is a [double],
    whose finite values are rationals. *)
Definition InputEdge := (nat * nat * Q)%type.

Definition is_self_loop (e : InputEdge) : bool :=
  let '(a, b, _) := e in Nat.eqb a b.

Definition is_integer_weight (w : Q) : bool :=
  Z.eqb (Z.modulo (Qnum w) (Zpos (Qden w))) 0.

Definition is_negative_weight (w : Q) : bool :=
  Z.ltb (Qnum w) 0.

Definition bad_weight (e : InputEdge) : bool :=
  let '(_, _, w) := e in negb (is_integer_weight w) || is_negative_weight w.

(** The widest integral weight the driver represents (64-bit signed). *)
Definition max_integer : Z := 2 ^ 63 - 1.

Definition weight_overflows (n : nat) (e : InputEdge) : bool :=
  let '(_, _, w) := e in Z.ltb max_integer (Z.quot (Qnum w) (Zpos (Qden w)) * Z.of_nat n).

(** The driver's copy of the edges: integral weights, doubled (Section 6,
    "Weight scaling"). *)
Definition scaled_edges (edges : list InputEdge) : list (nat * nat * Z) :=
  map (fun '(a, b, w) => (a, b, 2 * Z.quot (Qnum w) (Zpos (Qden w)))) edges.

(** Modelled from the spec: the constructors [MaximumMatching(Graph&)],
    [BlossomMaximumMatching(Graph&)] and [MicaliVaziraniMatching(Graph&)]
    (bodies absent), Section 7: "InvalidGraph: self-loop present,
    non-integer weight, or negative weight in the weighted variant ->
    fail at construction"; "Overflow: weight x n exceeds the integer
    range -> fail at construction if detectable". *)
Definition construct (var : Variant) (n : nat) (edges : list InputEdge)
    : MatchingError + list (nat * nat * Z) :=
  if existsb is_self_loop edges then inl InvalidGraph
  else if weighted var && existsb bad_weight edges then inl InvalidGraph
  else if weighted var && existsb (weight_overflows n) edges then inl Overflow
  else inr (scaled_edges edges).

End Construction.

(** ** Theorems *)

Lemma adjust_by_delta_U (s : State) (delta : edgeweight) (vertex : node) :
  U (adjust_by_delta delta s) !! vertex
  = adjust_U (node_label s vertex) delta <$> U s !! vertex.
Proof.
  unfold adjust_by_delta; simpl. rewrite list_lookup_imap. done.
Qed.

Lemma adjust_by_delta_arena (s : State) (delta : edgeweight) (b : nat) :
  arena (adjust_by_delta delta s) !! b
  = (fun bl => if bool_decide (b ∈ blossoms s)
               then set_z (adjust_z (label bl) delta (z bl)) bl else bl)
      <$> arena s !! b.
Proof.
  unfold adjust_by_delta; simpl. rewrite list_lookup_imap. done.
Qed.

(** C4: applying [adjust_by_delta delta] decreases the dual of every node
    of an even root blossom by [delta] and increases that of every node
    of an odd root blossom by [delta]; it adds [2 delta] to the dual of
    every even current blossom and subtracts [2 delta] from that of every
    odd current blossom; the duals of nodes and blossoms labelled free
    are unchanged; labels are left as they were. *)
Theorem adjust_by_delta_spec (s : State) (delta : edgeweight) :
  let s' := adjust_by_delta delta s in
  (forall vertex x, U s !! vertex = Some x ->
     node_label s vertex = even -> U s' !! vertex = Some (x - delta)) /\
  (forall vertex x, U s !! vertex = Some x ->
     node_label s vertex = odd -> U s' !! vertex = Some (x + delta)) /\
  (forall vertex x, U s !! vertex = Some x ->
     node_label s vertex = free -> U s' !! vertex = Some x) /\
  (forall b bl, b ∈ blossoms s -> arena s !! b = Some bl ->
     label bl = even -> z <$> arena s' !! b = Some (z bl + 2 * delta)) /\
  (forall b bl, b ∈ blossoms s -> arena s !! b = Some bl ->
     label bl = odd -> z <$> arena s' !! b = Some (z bl - 2 * delta)) /\
  (forall b bl, arena s !! b = Some bl ->
     label bl = free -> z <$> arena s' !! b = Some (z bl)) /\
  (forall b, label <$> arena s' !! b = label <$> arena s !! b).
Proof.
  cbv zeta.
  repeat split.
  - intros vertex x Hx Hl. rewrite adjust_by_delta_U, Hx, Hl. done.
  - intros vertex x Hx Hl. rewrite adjust_by_delta_U, Hx, Hl. done.
  - intros vertex x Hx Hl. rewrite adjust_by_delta_U, Hx, Hl. done.
  - intros b bl Hin Hb Hl. rewrite adjust_by_delta_arena, Hb. simpl.
    rewrite bool_decide_eq_true_2 by done. rewrite Hl. done.
  - intros b bl Hin Hb Hl. rewrite adjust_by_delta_arena, Hb. simpl.
    rewrite bool_decide_eq_true_2 by done. rewrite Hl. done.
  - intros b bl Hb Hl. rewrite adjust_by_delta_arena, Hb. simpl.
    case_bool_decide; simpl; rewrite ?Hl; done.
  - intros b. rewrite adjust_by_delta_arena.
    destruct (arena s !! b) as [bl|]; simpl; [|done].
    case_bool_decide; done.
Qed.

Lemma same_matching_refl (s : State) : same_matching s s.
Proof. split; done. Qed.

Lemma same_matching_trans (s1 s2 s3 : State) :
  same_matching s1 s2 -> same_matching s2 s3 -> same_matching s1 s3.
Proof. intros [H1 H2] [H3 H4]. split; congruence. Qed.

Lemma update_blossom_same_matching (f : Blossom -> Blossom) (b : nat) (s : State) :
  same_matching s (update_blossom f b s).
Proof. split; done. Qed.

Lemma push_tight_edges_same_matching (b : nat) (s : State) :
  same_matching s (push_tight_edges b s).
Proof. split; done. Qed.

Lemma label_even_same_matching (b : nat) (s : State) :
  same_matching s (label_even b s).
Proof. split; done. Qed.

Lemma label_free_blossom_same_matching (edge : EdgeInfo) (b : nat) (s : State) :
  same_matching s (label_free_blossom edge b s).
Proof.
  unfold label_free_blossom.
  destruct (matched_edge s _); split; done.
Qed.

Lemma handle_new_blossom_same_matching (children : list nat) (s : State) :
  same_matching s (handle_new_blossom children s).
Proof.
  unfold handle_new_blossom. revert s.
  induction children as [|c cs IH]; intros s; simpl; [apply same_matching_refl|].
  eapply same_matching_trans; [|apply IH].
  destruct (BlossomLabel_eqb _ _); [apply push_tight_edges_same_matching|apply same_matching_refl].
Qed.

Lemma create_new_blossom_same_matching (edge : EdgeInfo) (u_cut v_cut : list nat)
    (lca : nat) (s : State) :
  same_matching s (create_new_blossom edge u_cut v_cut lca s).
Proof.
  unfold create_new_blossom.
  eapply same_matching_trans; [|apply handle_new_blossom_same_matching].
  split; done.
Qed.

Lemma backtrack_cases (u v : nat) (edge : EdgeInfo) (s : State) :
  (fst (backtrack u v edge s) = true <->
     last (backtrack_path s u) <> last (backtrack_path s v)) /\
  (fst (backtrack u v edge s) = true ->
     snd (backtrack u v edge s) = augment_path edge (backtrack_path s u) (backtrack_path s v) s) /\
  (fst (backtrack u v edge s) = false -> same_matching s (snd (backtrack u v edge s))).
Proof.
  unfold backtrack. case_bool_decide as Hl; simpl.
  - split; [split; [discriminate|contradiction]|].
    split; [discriminate|]. intros _. apply create_new_blossom_same_matching.
  - split; [split; done|]. split; [done|discriminate].
Qed.

(** C6: [consider_edge] returns [true] exactly in the augmenting case:
    the two endpoints lie in distinct even root blossoms whose alternating
    trees have different roots, and then the new state is the one
    [augment_path] produces.  When it returns [false] (ignoring the edge,
    labelling blossoms or creating a new blossom) the matching
    ([is_in_matching] and [matched_vertex]) is unchanged. *)
Theorem consider_edge_true_iff_augment (s : State) (edge : EdgeInfo) :
  let bu := get_blossom s (edge_u edge) in
  let bv := get_blossom s (edge_v edge) in
  (fst (consider_edge edge s) = true <->
     bu <> bv /\ label (blossom_at s bu) = even /\ label (blossom_at s bv) = even /\
     last (backtrack_path s bu) <> last (backtrack_path s bv)) /\
  (fst (consider_edge edge s) = true ->
     snd (consider_edge edge s)
     = augment_path edge (backtrack_path s bu) (backtrack_path s bv) s) /\
  (fst (consider_edge edge s) = false ->
     same_matching s (snd (consider_edge edge s))).
Proof.
  cbv zeta. unfold consider_edge.
  case_bool_decide as Heq.
  { simpl. split; [split; [discriminate|intros [H _]; contradiction]|].
    split; [discriminate|]. intros _. apply same_matching_refl. }
  destruct (label (blossom_at s (get_blossom s (edge_u edge)))) eqn:Lu;
  destruct (label (blossom_at s (get_blossom s (edge_v edge)))) eqn:Lv; simpl;
  try (split; [split; [discriminate|intros (_ & H1 & H2 & _); discriminate]|];
       split; [discriminate|]; intros _;
       first [apply same_matching_refl | apply label_free_blossom_same_matching]).
  destruct (backtrack_cases (get_blossom s (edge_u edge)) (get_blossom s (edge_v edge)) edge s)
    as (H1 & H2 & H3).
  split; [|split; assumption].
  rewrite H1. split; [intros H; repeat split; done | intros (_ & _ & _ & H); exact H].
Qed.

(** C7: an edge inside one root blossom, or between two free root
    blossoms, is ignored: [consider_edge] returns [false] and leaves the
    whole state (matching, blossom forest, labels, duals, queue) as it
    was. *)
Theorem consider_edge_ignored_frame (s : State) (edge : EdgeInfo) :
  get_blossom s (edge_u edge) = get_blossom s (edge_v edge) \/
  (label (blossom_at s (get_blossom s (edge_u edge))) = free /\
   label (blossom_at s (get_blossom s (edge_v edge))) = free) ->
  consider_edge edge s = (false, s).
Proof.
  intros H. unfold consider_edge.
  case_bool_decide as Heq; [done|].
  destruct H as [H|[Hu Hv]]; [contradiction|].
  rewrite Hu, Hv. done.
Qed.

Lemma is_integer_weight_spec (w : Q) :
  Construction.is_integer_weight w = true <-> exists k : Z, (w == inject_Z k)%Q.
Proof.
  unfold Construction.is_integer_weight, Qeq, inject_Z. simpl.
  rewrite Z.eqb_eq, Z.mod_divide by lia.
  split; intros [k Hk]; exists k; lia.
Qed.

Lemma is_negative_weight_spec (w : Q) :
  Construction.is_negative_weight w = true <-> (w < 0)%Q.
Proof.
  unfold Construction.is_negative_weight, Qlt. simpl.
  rewrite Z.ltb_lt. lia.
Qed.

(** C8: construction fails with [InvalidGraph] exactly when the graph has
    a self-loop, or the variant is weighted and some edge weight is not
    an integer or is negative; on every other input no [InvalidGraph]
    error is raised. *)
Theorem construct_invalid_graph (var : Construction.Variant) (n : nat)
    (edges : list Construction.InputEdge) :
  Construction.construct var n edges = inl Construction.InvalidGraph <->
  (exists (a : nat) (w : Q), In (a, a, w) edges) \/
  (Construction.weighted var = true /\
   exists (a b : nat) (w : Q), In (a, b, w) edges /\
     ((~ exists k : Z, (w == inject_Z k)%Q) \/ (w < 0)%Q)).
Proof.
  unfold Construction.construct.
  destruct (existsb Construction.is_self_loop edges) eqn:Hs.
  - split; [intros _|done]. left.
    apply existsb_exists in Hs as [[[a b] w] [Hin Hab]].
    simpl in Hab. apply Nat.eqb_eq in Hab. subst b. eauto.
  - assert (Hno : ~ exists (a : nat) (w : Q), In (a, a, w) edges).
    { intros (a & w & Hin).
      assert (Ht : existsb Construction.is_self_loop edges = true).
      { apply existsb_exists. exists (a, a, w). split; [done|]. simpl. apply Nat.eqb_refl. }
      congruence. }
    destruct (Construction.weighted var && existsb Construction.bad_weight edges) eqn:Hb.
    + apply andb_true_iff in Hb as [Hw Hb].
      apply existsb_exists in Hb as [[[a b] w] [Hin Hbad]].
      split; [intros _|done]. right. split; [done|]. exists a, b, w. split; [done|].
      simpl in Hbad. apply orb_true_iff in Hbad as [Hi|Hn].
      * left. rewrite <- is_integer_weight_spec. destruct (Construction.is_integer_weight w); done.
      * right. apply is_negative_weight_spec. done.
    + assert (Hbad : ~ (Construction.weighted var = true /\
                 exists (a b : nat) (w : Q), In (a, b, w) edges /\
                   ((~ exists k : Z, (w == inject_Z k)%Q) \/ (w < 0)%Q))).
      { intros (Hw & a & b & w & Hin & Hw').
        rewrite Hw in Hb. simpl in Hb.
        assert (Ht : existsb Construction.bad_weight edges = true).
        { apply existsb_exists. exists (a, b, w). split; [done|]. simpl.
          apply orb_true_iff. destruct Hw' as [Hi|Hn].
          - left. rewrite <- is_integer_weight_spec in Hi.
            destruct (Construction.is_integer_weight w); [contradiction|done].
          - right. apply is_negative_weight_spec. done. }
        congruence. }
      destruct (Construction.weighted var &&
                existsb (Construction.weight_overflows n) edges);
        split; intros H; try discriminate;
        destruct H as [H|H]; first [exact (False_rect _ (Hno H)) | exact (False_rect _ (Hbad H))].
Qed.

(** Witness for C7: the matched edge 1 - 2 joins two free root blossoms
    of [example_state]; considering it changes nothing. *)
Lemma consider_edge_ignored_frame_witness :
  (label (blossom_at example_state (get_blossom example_state 1)) = free /\
   label (blossom_at example_state (get_blossom example_state 2)) = free) /\
  consider_edge (mkEdgeInfo 1 2 1) example_state = (false, example_state).
Proof.
  split; [split; reflexivity|].
  apply (consider_edge_ignored_frame example_state (mkEdgeInfo 1 2 1)).
  right. split; reflexivity.
Defined.

(** On [example_state], the edge 0 - 1 labels blossom 1 odd and blossom 2
    even without augmenting; then the edge 0 - 2 closes a blossom. *)
Example consider_edge_example_label :
  fst (consider_edge (mkEdgeInfo 0 1 0) example_state) = false /\
  node_label (snd (consider_edge (mkEdgeInfo 0 1 0) example_state)) 1 = odd /\
  node_label (snd (consider_edge (mkEdgeInfo 0 1 0) example_state)) 2 = even.
Proof. vm_compute. repeat split. Qed.

Example consider_edge_example_blossom :
  let s1 := snd (consider_edge (mkEdgeInfo 0 1 0) example_state) in
  let r := consider_edge (mkEdgeInfo 0 2 2) s1 in
  fst r = false /\ blossoms (snd r) = [3%nat] /\ for_nodes (snd r) 3 = [0%nat; 2%nat; 1%nat].
Proof. vm_compute. repeat split. Qed.

(** After the blossom [{0, 1, 2}] of [example_state_tail] is formed, the
    edge 2 - 3 joins two trees: [consider_edge] augments and the matching
    becomes [{0 - 1, 2 - 3}]. *)
Example consider_edge_example_augment :
  let s1 := snd (consider_edge (mkEdgeInfo 0 1 0) example_state_tail) in
  let s2 := snd (consider_edge (mkEdgeInfo 0 2 2) s1) in
  let r := consider_edge (mkEdgeInfo 3 2 3) s2 in
  fst r = true /\ is_in_matching (snd r) = [true; false; false; true] /\
  matched_vertex (snd r) = [Some 1%nat; Some 0%nat; Some 3%nat; Some 2%nat].
Proof. vm_compute. repeat split. Qed.

(** ** Further properties of the modelled operations *)

Lemma root_from_parents (ar ar' : list Blossom) (fuel b : nat) :
  (forall i, parent <$> ar' !! i = parent <$> ar !! i) ->
  root_from ar' fuel b = root_from ar fuel b.
Proof.
  intros Hp. revert b. induction fuel as [|f IH]; intros b; simpl; [done|].
  specialize (Hp b).
  destruct (ar' !! b) as [bl'|], (ar !! b) as [bl|]; simpl in Hp; try done.
  injection Hp as Hp. rewrite Hp. destruct (parent bl); [apply IH|done].
Qed.

Lemma ancestors_from_parents (ar ar' : list Blossom) (fuel b : nat) :
  (forall i, parent <$> ar' !! i = parent <$> ar !! i) ->
  ancestors_from ar' fuel b = ancestors_from ar fuel b.
Proof.
  intros Hp. revert b. induction fuel as [|f IH]; intros b; simpl; [done|].
  f_equal. specialize (Hp b).
  destruct (ar' !! b) as [bl'|], (ar !! b) as [bl|]; simpl in Hp; try done.
  injection Hp as Hp. rewrite Hp. destruct (parent bl); [apply IH|done].
Qed.

Lemma adjust_by_delta_parents (s : State) (delta : edgeweight) (i : nat) :
  parent <$> arena (adjust_by_delta delta s) !! i = parent <$> arena s !! i.
Proof.
  rewrite adjust_by_delta_arena. destruct (arena s !! i); simpl; [|done].
  case_bool_decide; done.
Qed.

Lemma adjust_by_delta_length (s : State) (delta : edgeweight) :
  length (arena (adjust_by_delta delta s)) = length (arena s).
Proof. unfold adjust_by_delta. simpl. apply length_imap. Qed.

Lemma adjust_by_delta_get_blossom (s : State) (delta : edgeweight) (x : node) :
  get_blossom (adjust_by_delta delta s) x = get_blossom s x.
Proof.
  unfold get_blossom. rewrite adjust_by_delta_length.
  apply root_from_parents, adjust_by_delta_parents.
Qed.

Lemma adjust_by_delta_ancestors (s : State) (delta : edgeweight) (x : node) :
  ancestors (adjust_by_delta delta s) x = ancestors s x.
Proof.
  unfold ancestors. rewrite adjust_by_delta_length.
  apply ancestors_from_parents, adjust_by_delta_parents.
Qed.

Lemma adjust_by_delta_blossom_at (s : State) (delta : edgeweight) (B : nat) :
  blossom_at (adjust_by_delta delta s) B
  = if bool_decide (B ∈ blossoms s)
    then set_z (adjust_z (label (blossom_at s B)) delta (z (blossom_at s B))) (blossom_at s B)
    else blossom_at s B.
Proof.
  unfold blossom_at. rewrite adjust_by_delta_arena.
  destruct (arena s !! B); simpl; [done|].
  case_bool_decide; done.
Qed.

Lemma adjust_by_delta_node_label (s : State) (delta : edgeweight) (x : node) :
  node_label (adjust_by_delta delta s) x = node_label s x.
Proof.
  unfold node_label. rewrite adjust_by_delta_get_blossom, adjust_by_delta_blossom_at.
  case_bool_decide; done.
Qed.

(** [adjust_by_delta] changes no label and no part of the blossom
    forest (the set of current blossoms, and every field of every
    blossom other than [z]), and two adjustments add up: adjusting by
    [d1] and then by [d2] is adjusting once by [d1 + d2]. *)
Theorem adjust_by_delta_compose (s : State) (d1 d2 : edgeweight) :
  blossoms (adjust_by_delta d1 s) = blossoms s /\
  trivial_blossom (adjust_by_delta d1 s) = trivial_blossom s /\
  (forall b, forest_part <$> arena (adjust_by_delta d1 s) !! b = forest_part <$> arena s !! b) /\
  (forall x, node_label (adjust_by_delta d1 s) x = node_label s x) /\
  adjust_by_delta d2 (adjust_by_delta d1 s) = adjust_by_delta (d1 + d2) s.
Proof.
  split; [done|]. split; [done|]. split.
  { intros b. rewrite adjust_by_delta_arena.
    destruct (arena s !! b); simpl; [|done]. case_bool_decide; done. }
  split; [apply adjust_by_delta_node_label|].
  assert (HU : U (adjust_by_delta d2 (adjust_by_delta d1 s)) = U (adjust_by_delta (d1 + d2) s)).
  { apply list_eq. intros v.
    rewrite !adjust_by_delta_U, adjust_by_delta_node_label.
    destruct (U s !! v); simpl; [|done].
    destruct (node_label s v); simpl; f_equal; lia. }
  assert (HA : arena (adjust_by_delta d2 (adjust_by_delta d1 s))
               = arena (adjust_by_delta (d1 + d2) s)).
  { apply list_eq. intros b.
    rewrite !adjust_by_delta_arena. simpl.
    destruct (arena s !! b) as [bl|]; simpl; [|done].
    case_bool_decide; simpl; [|done].
    f_equal. unfold set_z; simpl. f_equal. destruct (label bl); simpl; lia. }
  destruct s as [ge m ar bs mv tb u q].
  unfold adjust_by_delta in *; simpl in *. rewrite HU, HA. done.
Qed.

Lemma adjust_z_sign (lab : BlossomLabel) (delta x : edgeweight) :
  adjust_z lab delta x = x + 2 * delta * label_sign lab.
Proof. destruct lab; simpl; lia. Qed.

Lemma adjust_U_sign (lab : BlossomLabel) (delta x : edgeweight) :
  adjust_U lab delta x = x - label_sign lab * delta.
Proof. destruct lab; simpl; lia. Qed.

Lemma adjust_by_delta_z_sum (s : State) (delta : edgeweight) (l : list nat) :
  foldr (fun B acc => z (blossom_at (adjust_by_delta delta s) B) + acc) 0 l
  = foldr (fun B acc => z (blossom_at s B) + acc) 0 l + 2 * delta * current_sign_sum s l.
Proof.
  unfold current_sign_sum.
  induction l as [|B l IH]; simpl; [lia|].
  rewrite IH, adjust_by_delta_blossom_at.
  case_bool_decide; simpl; [rewrite adjust_z_sign|]; lia.
Qed.

(** How one dual adjustment moves the slack of an edge [(a, b)]: each
    endpoint contributes [- label_sign * delta] through its node dual
    and each current blossom containing both endpoints contributes
    [2 * label_sign * delta]. *)
Theorem adjust_by_delta_edge_slack (s : State) (delta : edgeweight)
    (id a b : nat) (w : edgeweight) :
  graph_edges s !! id = Some (a, b, w) ->
  (a < length (U s))%nat -> (b < length (U s))%nat ->
  edge_slack (adjust_by_delta delta s) id
  = edge_slack s id
    - (label_sign (node_label s a) + label_sign (node_label s b)) * delta
    + 2 * delta * current_sign_sum s (common_blossoms s a b).
Proof.
  intros He Ha Hb. unfold edge_slack, common_blossoms.
  replace (graph_edges (adjust_by_delta delta s)) with (graph_edges s) by done.
  rewrite He, !adjust_by_delta_ancestors, adjust_by_delta_z_sum, !adjust_by_delta_U.
  apply lookup_lt_is_Some in Ha as [xa Ha]. apply lookup_lt_is_Some in Hb as [xb Hb].
  rewrite Ha, Hb. simpl. rewrite !adjust_U_sign. lia.
Qed.

(** Witness: on [example_state], edges 0-1 and 0-2 form the even
    blossom 3 = [{0, 1, 2}].  For edge 0 (0-1), inside it, both endpoints
    are even and the one current blossom containing both is even, so the
    two terms cancel and adjusting by 1 keeps its slack. *)
Lemma adjust_by_delta_edge_slack_witness :
  let s2 := snd (consider_edge (mkEdgeInfo 0 2 2)
                   (snd (consider_edge (mkEdgeInfo 0 1 0) example_state))) in
  current_sign_sum s2 (common_blossoms s2 0 1) = 1 /\
  edge_slack (adjust_by_delta 1 s2) 0
  = edge_slack s2 0
    - (label_sign (node_label s2 0) + label_sign (node_label s2 1)) * 1
    + 2 * 1 * current_sign_sum s2 (common_blossoms s2 0 1) /\
  edge_slack (adjust_by_delta 1 s2) 0 = edge_slack s2 0.
Proof.
  cbv zeta. split; [vm_compute; reflexivity|]. split.
  - apply (adjust_by_delta_edge_slack _ 1 0 0 1 2); vm_compute; [reflexivity|lia|lia].
  - vm_compute. reflexivity.
Defined.

Lemma duals_kept_refl (s : State) : duals_kept s s.
Proof.
  split; [done|]. split; [done|]. split; [lia|]. split; [done|].
  intros b bl Hb Hl. apply lookup_lt_Some in Hl. lia.
Qed.

Lemma duals_kept_trans (s1 s2 s3 : State) :
  duals_kept s1 s2 -> duals_kept s2 s3 -> duals_kept s1 s3.
Proof.
  intros (G1 & U1 & L1 & Z1 & N1) (G2 & U2 & L2 & Z2 & N2).
  split; [congruence|]. split; [congruence|]. split; [lia|]. split.
  - intros b Hb. rewrite Z2 by lia. apply Z1. done.
  - intros b bl Hb Hl.
    destruct (decide (b < length (arena s2))%nat) as [Hlt|Hge].
    + specialize (Z2 b Hlt). rewrite Hl in Z2.
      destruct (arena s2 !! b) as [bl2|] eqn:H2; simpl in Z2; [|done].
      injection Z2 as ->. apply (N1 b bl2); [lia|done].
    + apply (N2 b bl); [lia|done].
Qed.

(** Replacing the arena keeps duals when lengths and [z] agree. *)
Lemma duals_kept_arena (s : State) (ar : list Blossom) :
  length ar = length (arena s) ->
  (forall b, z <$> ar !! b = z <$> arena s !! b) ->
  duals_kept s (set_arena ar s).
Proof.
  intros Hl Hz. split; [done|]. split; [done|]. simpl. split; [lia|]. split.
  - intros b _. apply Hz.
  - intros b bl Hb Hbl. apply lookup_lt_Some in Hbl. lia.
Qed.

Lemma update_blossom_duals_kept (f : Blossom -> Blossom) (b : nat) (s : State) :
  (forall bl, z (f bl) = z bl) -> duals_kept s (update_blossom f b s).
Proof.
  intros Hf. apply duals_kept_arena; [apply length_alter|].
  intros i. simpl.
  destruct (decide (b = i)) as [->|Hne].
  - rewrite list_lookup_alter_eq. destruct (arena s !! i); simpl; [rewrite Hf|]; done.
  - rewrite list_lookup_alter_ne by done. done.
Qed.

Lemma swap_edge_in_matching_duals_kept (id : edgeid) (s : State) :
  duals_kept s (swap_edge_in_matching id s).
Proof.
  unfold swap_edge_in_matching.
  destruct (graph_edges s !! id) as [[[a b] w]|]; [|apply duals_kept_refl].
  destruct (is_in_matching s !! id) as [[|]|]; try apply duals_kept_refl;
    apply duals_kept_arena; done.
Qed.

Lemma push_tight_edges_duals_kept (b : nat) (s : State) :
  duals_kept s (push_tight_edges b s).
Proof. apply duals_kept_arena; done. Qed.

Lemma label_even_duals_kept (b : nat) (s : State) :
  duals_kept s (label_even b s).
Proof.
  unfold label_even.
  eapply duals_kept_trans; [|apply push_tight_edges_duals_kept].
  apply update_blossom_duals_kept. done.
Qed.

Lemma label_free_blossom_duals_kept (edge : EdgeInfo) (b : nat) (s : State) :
  duals_kept s (label_free_blossom edge b s).
Proof.
  unfold label_free_blossom, label_odd.
  assert (H1 : duals_kept s (update_blossom (set_label odd) b
                 (update_blossom (set_backtrack_edge (Some edge)) b s))).
  { eapply duals_kept_trans; apply update_blossom_duals_kept; done. }
  destruct (matched_edge s _); [|exact H1].
  eapply duals_kept_trans; [exact H1|].
  eapply duals_kept_trans; [|apply label_even_duals_kept].
  apply update_blossom_duals_kept. done.
Qed.

Lemma handle_new_blossom_duals_kept (children : list nat) (s : State) :
  duals_kept s (handle_new_blossom children s).
Proof.
  unfold handle_new_blossom. revert s.
  induction children as [|c cs IH]; intros s; simpl; [apply duals_kept_refl|].
  eapply duals_kept_trans; [|apply IH].
  destruct (BlossomLabel_eqb _ _); [apply push_tight_edges_duals_kept|apply duals_kept_refl].
Qed.

Lemma foldr_alter_parent_length (nb : nat) (cs : list nat) (ar : list Blossom) :
  length (foldr (fun c ar => alter (set_parent (Some nb)) c ar) ar cs) = length ar.
Proof. induction cs as [|c cs IH]; simpl; [done|]. rewrite length_alter. done. Qed.

Lemma foldr_alter_parent_z (nb : nat) (cs : list nat) (ar : list Blossom) (i : nat) :
  z <$> foldr (fun c ar => alter (set_parent (Some nb)) c ar) ar cs !! i = z <$> ar !! i.
Proof.
  induction cs as [|c cs IH]; simpl; [done|].
  destruct (decide (c = i)) as [->|Hne].
  - rewrite list_lookup_alter_eq, <- IH.
    destruct (foldr _ ar cs !! i); done.
  - rewrite list_lookup_alter_ne by done. done.
Qed.

Lemma create_new_blossom_duals_kept (edge : EdgeInfo) (u_cut v_cut : list nat)
    (lca : nat) (s : State) :
  duals_kept s (create_new_blossom edge u_cut v_cut lca s).
Proof.
  unfold create_new_blossom.
  eapply duals_kept_trans; [|apply handle_new_blossom_duals_kept].
  split; [done|]. split; [done|]. simpl.
  rewrite length_app, foldr_alter_parent_length. simpl. split; [lia|]. split.
  - intros b Hb. rewrite lookup_app_l by (rewrite foldr_alter_parent_length; done).
    apply foldr_alter_parent_z.
  - intros b bl Hb Hl.
    rewrite lookup_app_r in Hl by (rewrite foldr_alter_parent_length; lia).
    rewrite foldr_alter_parent_length in Hl.
    destruct (b - length (arena s))%nat as [|k]; simpl in Hl.
    + injection Hl as <-. done.
    + rewrite lookup_nil in Hl. done.
Qed.

Lemma foldl_swap_duals_kept (path : list EdgeInfo) (s : State) :
  duals_kept s (foldl (fun s e => swap_edge_in_matching (edge_id e) s) s path).
Proof.
  revert s. induction path as [|e es IH]; intros s; simpl; [apply duals_kept_refl|].
  eapply duals_kept_trans; [apply swap_edge_in_matching_duals_kept|apply IH].
Qed.

Lemma lazy_augment_path_in_blossom_duals_kept (fuel b : nat) (entry : node) (s : State) :
  duals_kept s (lazy_augment_path_in_blossom fuel b entry s).
Proof.
  revert b entry s. induction fuel as [|f IH]; intros b entry s; simpl; [apply duals_kept_refl|].
  destruct (sub_blossoms (blossom_at s b)) as [|p ps]; [apply duals_kept_refl|].
  eapply duals_kept_trans; [apply foldl_swap_duals_kept|].
  match goal with
  | |- duals_kept ?s1 (update_blossom ?g b (lazy_augment_path_in_blossom f ?c entry
                         (foldl ?h ?s1' ?l0))) =>
      assert (Hfold : forall l s0, duals_kept s0 (foldl h s0 l))
  end.
  { intros l. induction l as [|e es IHl]; intros s0; simpl; [apply duals_kept_refl|].
    eapply duals_kept_trans; [|apply IHl].
    eapply duals_kept_trans; apply IH. }
  eapply duals_kept_trans; [apply Hfold|].
  eapply duals_kept_trans; [apply IH|].
  apply update_blossom_duals_kept. done.
Qed.

Lemma augment_half_duals_kept (fuel : nat) (path : list nat) (entry : node) (s : State) :
  duals_kept s (augment_half fuel path entry s).
Proof.
  remember (length path) as n eqn:Hn.
  assert (Hle : (length path <= n)%nat) by lia. clear Hn.
  revert path entry s Hle. induction n as [|n IH]; intros path entry s Hle.
  { destruct path; [apply duals_kept_refl|simpl in Hle; lia]. }
  destruct path as [|b rest]; simpl; [apply duals_kept_refl|].
  destruct (backtrack_edge (blossom_at s b)) as [e|];
    [|apply lazy_augment_path_in_blossom_duals_kept].
  eapply duals_kept_trans; [apply lazy_augment_path_in_blossom_duals_kept|].
  eapply duals_kept_trans; [apply swap_edge_in_matching_duals_kept|].
  destruct rest as [|p rest']; [apply duals_kept_refl|].
  destruct (backtrack_edge (blossom_at s p)) as [e'|]; [|apply duals_kept_refl].
  eapply duals_kept_trans; [apply lazy_augment_path_in_blossom_duals_kept|].
  eapply duals_kept_trans; [apply swap_edge_in_matching_duals_kept|].
  apply IH. simpl in Hle. lia.
Qed.

Lemma augment_path_duals_kept (edge : EdgeInfo) (u_path v_path : list nat) (s : State) :
  duals_kept s (augment_path edge u_path v_path s).
Proof.
  unfold augment_path.
  eapply duals_kept_trans; [apply augment_half_duals_kept|].
  eapply duals_kept_trans; [apply augment_half_duals_kept|].
  apply swap_edge_in_matching_duals_kept.
Qed.

(** [consider_edge] never touches a dual variable: whatever it does
    (ignore, label, create a blossom or augment), the graph, the node
    duals [U] and the dual [z] of every existing blossom are unchanged,
    and every blossom it creates starts with [z = 0]. *)
Theorem consider_edge_keeps_duals (s : State) (edge : EdgeInfo) :
  duals_kept s (snd (consider_edge edge s)).
Proof.
  unfold consider_edge.
  case_bool_decide; [apply duals_kept_refl|].
  destruct (label (blossom_at s (get_blossom s (edge_u edge))));
  destruct (label (blossom_at s (get_blossom s (edge_v edge)))); simpl;
    try apply duals_kept_refl; try apply label_free_blossom_duals_kept.
  unfold backtrack. case_bool_decide; simpl.
  - apply create_new_blossom_duals_kept.
  - apply augment_path_duals_kept.
Qed.

(** Swapping a matched edge [(a, b)] whose endpoints are mates leaves
    both endpoints exposed, clears the edge's bit and keeps
    [matched_vertex] symmetric. *)
Theorem swap_matched_edge_exposes (s : State) (id a b : nat) (w : edgeweight) :
  graph_edges s !! id = Some (a, b, w) -> a <> b ->
  is_in_matching s !! id = Some true ->
  matched_vertex s !! a = Some (Some b) ->
  mate_symmetric (matched_vertex s) ->
  let s' := swap_edge_in_matching id s in
  is_in_matching s' !! id = Some false /\
  matched_vertex s' !! a = Some None /\ matched_vertex s' !! b = Some None /\
  mate_symmetric (matched_vertex s').
Proof.
  intros He Hab Hm Ha Hsym. cbv zeta. unfold swap_edge_in_matching.
  rewrite He, Hm. simpl.
  pose proof (Hsym a b Ha) as Hb.
  assert (Hia : (a < length (matched_vertex s))%nat) by (eapply lookup_lt_Some; eauto).
  assert (Hib : (b < length (matched_vertex s))%nat) by (eapply lookup_lt_Some; eauto).
  rewrite (bool_decide_eq_true_2 (matched_vertex s !! a = Some (Some b))) by done.
  rewrite (bool_decide_eq_true_2 (<[a:=None]> (matched_vertex s) !! b = Some (Some a)))
    by (rewrite list_lookup_insert_ne by done; done).
  split; [apply list_lookup_insert_eq; eapply lookup_lt_Some; eauto|].
  split; [rewrite list_lookup_insert_ne by done; apply list_lookup_insert_eq; done|].
  split; [apply list_lookup_insert_eq; rewrite length_insert; done|].
  intros x y Hx.
  destruct (decide (x = b)) as [->|Hxb];
    [rewrite list_lookup_insert_eq in Hx by (rewrite length_insert; done); done|].
  rewrite list_lookup_insert_ne in Hx by done.
  destruct (decide (x = a)) as [->|Hxa]; [rewrite list_lookup_insert_eq in Hx by done; done|].
  rewrite list_lookup_insert_ne in Hx by done.
  pose proof (Hsym x y Hx) as Hy.
  assert (y <> a) by (intros ->; congruence).
  assert (y <> b) by (intros ->; congruence).
  rewrite !list_lookup_insert_ne by done. done.
Qed.

(** Swapping an unmatched edge [(a, b)] between two exposed nodes sets
    the edge's bit, makes [a] and [b] mates and keeps [matched_vertex]
    symmetric. *)
Theorem swap_unmatched_edge_matches (s : State) (id a b : nat) (w : edgeweight) :
  graph_edges s !! id = Some (a, b, w) -> a <> b ->
  is_in_matching s !! id = Some false ->
  matched_vertex s !! a = Some None -> matched_vertex s !! b = Some None ->
  mate_symmetric (matched_vertex s) ->
  let s' := swap_edge_in_matching id s in
  is_in_matching s' !! id = Some true /\
  matched_vertex s' !! a = Some (Some b) /\ matched_vertex s' !! b = Some (Some a) /\
  mate_symmetric (matched_vertex s').
Proof.
  intros He Hab Hm Ha Hb Hsym. cbv zeta. unfold swap_edge_in_matching.
  rewrite He, Hm. simpl.
  assert (Hia : (a < length (matched_vertex s))%nat) by (eapply lookup_lt_Some; eauto).
  assert (Hib : (b < length (matched_vertex s))%nat) by (eapply lookup_lt_Some; eauto).
  split; [apply list_lookup_insert_eq; eapply lookup_lt_Some; eauto|].
  split; [rewrite list_lookup_insert_ne by done; apply list_lookup_insert_eq; done|].
  split; [apply list_lookup_insert_eq; rewrite length_insert; done|].
  intros x y Hx.
  destruct (decide (x = b)) as [->|Hxb].
  { rewrite list_lookup_insert_eq in Hx by (rewrite length_insert; done).
    injection Hx as <-. rewrite list_lookup_insert_ne by done.
    apply list_lookup_insert_eq; done. }
  rewrite list_lookup_insert_ne in Hx by done.
  destruct (decide (x = a)) as [->|Hxa].
  { rewrite list_lookup_insert_eq in Hx by done. injection Hx as <-.
    apply list_lookup_insert_eq; rewrite length_insert; done. }
  rewrite list_lookup_insert_ne in Hx by done.
  pose proof (Hsym x y Hx) as Hy.
  assert (y <> a) by (intros ->; congruence).
  assert (y <> b) by (intros ->; congruence).
  rewrite !list_lookup_insert_ne by done. done.
Qed.

Lemma mate_symmetric_check_sound (mv : list (option node)) :
  mate_symmetric_check mv = true -> mate_symmetric mv.
Proof.
  unfold mate_symmetric_check. intros H a b Hab.
  apply forallb_forall with (x := (a, Some b)) in H.
  - apply bool_decide_eq_true_1 in H. done.
  - apply list_elem_of_In, list_elem_of_lookup. exists a.
    rewrite list_lookup_imap, Hab. done.
Qed.

(** Witness: edge 1 of [example_state] matches nodes 1 and 2. *)
Lemma swap_matched_edge_exposes_witness :
  mate_symmetric (matched_vertex example_state) /\
  is_in_matching (swap_edge_in_matching 1 example_state) !! 1%nat = Some false /\
  matched_vertex (swap_edge_in_matching 1 example_state) !! 1%nat = Some None /\
  matched_vertex (swap_edge_in_matching 1 example_state) !! 2%nat = Some None /\
  mate_symmetric (matched_vertex (swap_edge_in_matching 1 example_state)).
Proof.
  assert (Hs : mate_symmetric (matched_vertex example_state))
    by (apply mate_symmetric_check_sound; vm_compute; reflexivity).
  split; [exact Hs|].
  apply (swap_matched_edge_exposes example_state 1 1 2 2);
    [reflexivity|lia|reflexivity|reflexivity|exact Hs].
Defined.

(** Witness: once edge 1 is swapped out, nodes 0 and 1 are exposed and
    swapping edge 0 matches them. *)
Lemma swap_unmatched_edge_matches_witness :
  let s1 := swap_edge_in_matching 1 example_state in
  mate_symmetric (matched_vertex s1) /\
  is_in_matching (swap_edge_in_matching 0 s1) !! 0%nat = Some true /\
  matched_vertex (swap_edge_in_matching 0 s1) !! 0%nat = Some (Some 1%nat) /\
  matched_vertex (swap_edge_in_matching 0 s1) !! 1%nat = Some (Some 0%nat) /\
  mate_symmetric (matched_vertex (swap_edge_in_matching 0 s1)).
Proof.
  cbv zeta.
  assert (Hs : mate_symmetric (matched_vertex (swap_edge_in_matching 1 example_state)))
    by (apply mate_symmetric_check_sound; vm_compute; reflexivity).
  split; [exact Hs|].
  apply (swap_unmatched_edge_matches (swap_edge_in_matching 1 example_state) 0 0 1 2);
    [reflexivity|lia|reflexivity|reflexivity|reflexivity|exact Hs].
Defined.

Lemma integer_weight_quot (w : Q) :
  Construction.is_integer_weight w = true ->
  Qnum w = Z.quot (Qnum w) (Zpos (Qden w)) * Zpos (Qden w).
Proof.
  unfold Construction.is_integer_weight. intros H. apply Z.eqb_eq in H.
  rewrite <- Z.rem_mod_eq_0 in H by lia.
  pose proof (Z.quot_rem' (Qnum w) (Zpos (Qden w))) as Hq. lia.
Qed.

(** A weighted matcher that is constructed successfully works on the
    same edges, none a self-loop, each with an internal weight that is
    exactly twice its input weight (no rounding) and not negative. *)
Theorem construct_scaled_edges (var : Construction.Variant) (n : nat)
    (edges : list Construction.InputEdge) (es : list (nat * nat * Z)) :
  Construction.construct var n edges = inr es ->
  Construction.weighted var = true ->
  Forall2 (fun (e : Construction.InputEdge) (e' : nat * nat * Z) =>
             let '(a, b, w) := e in let '(a', b', w') := e' in
             a' = a /\ b' = b /\ a <> b /\ (inject_Z w' == 2 * w)%Q /\ 0 <= w') edges es.
Proof.
  unfold Construction.construct. intros Hc Hw.
  destruct (existsb Construction.is_self_loop edges) eqn:Hs; [discriminate|].
  rewrite Hw in Hc. simpl in Hc.
  destruct (existsb Construction.bad_weight edges) eqn:Hb; [discriminate|].
  destruct (existsb (Construction.weight_overflows n) edges); [discriminate|].
  injection Hc as <-. unfold Construction.scaled_edges.
  induction edges as [|[[a b] w] rest IH]; simpl; [constructor|].
  simpl in Hs, Hb. apply orb_false_iff in Hs as [Hs Hs'].
  apply orb_false_iff in Hb as [Hb Hb'].
  apply orb_false_iff in Hb as [Hi Hn].
  constructor; [|apply IH; done].
  apply negb_false_iff in Hi.
  pose proof (integer_weight_quot w Hi) as Hq.
  unfold Construction.is_negative_weight in Hn. apply Z.ltb_ge in Hn.
  split; [done|]. split; [done|]. split; [intros ->; rewrite Nat.eqb_refl in Hs; done|].
  split.
  - unfold Qeq, inject_Z. simpl. lia.
  - assert (0 <= Z.quot (Qnum w) (Zpos (Qden w))) by (apply Z.quot_pos; lia). lia.
Qed.

(** Witness: a unit-weight triangle is accepted by the Edmonds variant
    and its weights become 2. *)
Lemma construct_scaled_edges_witness :
  Construction.construct Construction.Edmonds 3
    [(0%nat, 1%nat, 1%Q); (1%nat, 2%nat, 1%Q); (0%nat, 2%nat, 1%Q)]
  = inr [(0%nat, 1%nat, 2); (1%nat, 2%nat, 2); (0%nat, 2%nat, 2)] /\
  Forall2 (fun (e : Construction.InputEdge) (e' : nat * nat * Z) =>
             let '(a, b, w) := e in let '(a', b', w') := e' in
             a' = a /\ b' = b /\ a <> b /\ (inject_Z w' == 2 * w)%Q /\ 0 <= w')
    [(0%nat, 1%nat, 1%Q); (1%nat, 2%nat, 1%Q); (0%nat, 2%nat, 1%Q)]
    [(0%nat, 1%nat, 2); (1%nat, 2%nat, 2); (0%nat, 2%nat, 2)].
Proof.
  split; [vm_compute; reflexivity|].
  apply (construct_scaled_edges Construction.Edmonds 3); vm_compute; reflexivity.
Defined.

(** On [example_state_blossom], edge 0-2 labels blossom 6 odd and node 4
    even; edge 4-5 then augments along 5-4, 4-1 (out), the blossom
    (re-based at 2), 2-0.  The result is the matching
    [{1-3, 0-2, 4-5}] with a symmetric [matched_vertex], and blossom 6
    has base 2. *)
Example consider_edge_example_augment_odd_blossom :
  let s1 := snd (consider_edge (mkEdgeInfo 0 2 4) example_state_blossom) in
  let r := consider_edge (mkEdgeInfo 4 5 5) s1 in
  fst r = true /\
  is_in_matching (snd r) = [false; false; true; false; true; true] /\
  matched_vertex (snd r) = [Some 2%nat; Some 3%nat; Some 0%nat; Some 1%nat; Some 5%nat; Some 4%nat] /\
  mate_symmetric_check (matched_vertex (snd r)) = true /\
  base (blossom_at (snd r) 6) = 2%nat.
Proof. vm_compute. repeat split. Qed.
